(** * pymodbus.transport.message: the ModbusMessage layer

    A shallow embedding of [src/pymodbus/transport/message.py] and the
    properties of its message layer.  Python objects live in a store and are
    named by their location, so that the aliasing created by the connection
    factory (a closure over [self] that is written into the caller's
    parameter object) is visible in the model. *)

From Stdlib Require Import ZArith NArith Strings.Byte String Lia.
From stdpp Require Import base option list.

(** ** Wire data *)

Abbreviation bytes := (list byte) (only parsing).

(** [addr: tuple = None]: an optional (host, port) pair. *)
Definition Addr : Type := (string * Z)%type.

(** A reference to a Python object: its index in the store. *)
Abbreviation loc := nat (only parsing).

(** Modelled from the spec: the Message of the data model, which has no
    counterpart under src/: "unit_id (0-255), function_code (0-255), data
    (ordered byte sequence), optional transaction_id". *)
Record Message : Type := mkMessage {
  unit_id : byte;
  function_code : byte;
  data : bytes;
  transaction_id : option N
}.

(** ** class CommHeaderType(Enum) *)

Inductive CommHeaderType : Type := SOCKET | TLS | RTU | ASCII | BINARY.

Definition CommHeaderType_value (t : CommHeaderType) : Z :=
  match t with
  | SOCKET => 1
  | TLS => 2
  | RTU => 3
  | ASCII => 4
  | BINARY => 5
  end%Z.

#[global] Instance CommHeaderType_eq_dec : EqDecision CommHeaderType.
Proof. solve_decision. Defined.

(** ** class ModbusHeader and its five subclasses

    Every subclass has one method, [__init__(self, message)], which stores
    the owning message layer in [self.message]; a constructor of the tagged
    union is that call. *)

Inductive ModbusHeader : Type :=
| HeaderSocket (message : loc)
| HeaderTLS (message : loc)
| HeaderRTU (message : loc)
| HeaderASCII (message : loc)
| HeaderBinary (message : loc).

(** The attribute [header.message]. *)
Definition message (h : ModbusHeader) : loc :=
  match h with
  | HeaderSocket m | HeaderTLS m | HeaderRTU m | HeaderASCII m
  | HeaderBinary m => m
  end.

(** [lambda: ModbusMessage(headerType, self.comm_params, False)]: the closure
    captures [headerType] and [self]; [self.comm_params] is read when the
    closure is called. *)
Inductive Callable : Type :=
| Lambda (headerType : CommHeaderType) (self : loc).

(** ** Interactions with the collaborators of the layer

    The source logs through [Log.debug] and writes through
    [transport_send]; these are the only two interactions it has.
    [On_message] is the application callback of the specification
    ("one call per fully validated decoded frame"), which no statement of
    the source performs. *)

Inductive Effect : Type :=
| Log_debug (fmt : string) (payload : bytes) (rest : list (option Addr))
| Transport_send (self : loc) (payload : bytes) (addr : option Addr)
| On_message (self : loc) (m : Message).

(** The messages handed to the application, in order. *)
Definition delivered (tr : list Effect) : list (loc * Message) :=
  omap (fun e => match e with On_message l m => Some (l, m) | _ => None end) tr.

(** The byte strings handed to the transport by instance [l], in order. *)
Definition handed_to_transport (l : loc) (tr : list Effect) : list bytes :=
  omap (fun e => match e with
                 | Transport_send l' d _ => if decide (l' = l) then Some d else None
                 | _ => None
                 end) tr.

Section Layer.

(** [CommParams] is declared in [pymodbus.transport.transport]; the message
    layer touches one of its fields, [new_connection_class].  The remaining
    fields are kept abstract. *)
Variable Cfg : Type.

(** Whether [ModbusProtocol.__init__] keeps a copy of [params] (as a
    dataclass [copy()]) or the caller's object itself.  The layer's
    properties below hold either way. *)
Variable params_copied : bool.

Record CommParams : Type := mkCommParams {
  fields : Cfg;
  new_connection_class : option Callable
}.

(** Modelled from the spec: the part of an instance that the superclass
    [ModbusProtocol] (pymodbus/transport/transport.py) owns: the
    configuration it is bound to, the role, and the per-connection byte
    accumulator. *)
Record ModbusProtocol : Type := mkModbusProtocol {
  comm_params : loc;
  is_server : bool;
  recv_buffer : bytes
}.

(** A [ModbusMessage] instance: the superclass part and [self.header]. *)
Record ModbusMessage : Type := mkModbusMessage {
  base : ModbusProtocol;
  header : ModbusHeader
}.

(** The store: parameter objects, message layer instances, and the trace of
    interactions with the logger, the transport and the application. *)
Record State : Type := mkState {
  params_heap : list CommParams;
  objects : list ModbusMessage;
  trace : list Effect
}.

Definition emit (e : Effect) (σ : State) : State :=
  mkState (params_heap σ) (objects σ) (trace σ ++ [e]).

(** [params.new_connection_class = f] *)
Definition set_new_connection_class (params : loc) (f : Callable) (σ : State)
  : option State :=
  p ← params_heap σ !! params;
  Some (mkState (<[params := mkCommParams (fields p) (Some f)]> (params_heap σ))
                (objects σ) (trace σ)).

(** Modelled from the spec: [ModbusProtocol.__init__(params, is_server)]
    (pymodbus/transport/transport.py) binds [self.comm_params] to the
    configuration it is given, records the role and starts with an empty
    accumulator of its own. *)
Definition ModbusProtocol_init (params : loc) (is_server : bool) (σ : State)
  : option (ModbusProtocol * State) :=
  p ← params_heap σ !! params;
  if params_copied then
    Some (mkModbusProtocol (length (params_heap σ)) is_server [],
          mkState (params_heap σ ++ [p]) (objects σ) (trace σ))
  else
    Some (mkModbusProtocol params is_server [], σ).

(** The dict literal of [__init__]: all five header objects are built, each
    with [message = self]. *)
Definition header_dict (self : loc) : list (CommHeaderType * ModbusHeader) :=
  [ (SOCKET, HeaderSocket self);
    (TLS, HeaderTLS self);
    (RTU, HeaderRTU self);
    (ASCII, HeaderASCII self);
    (BINARY, HeaderBinary self) ].

(** [d[key]]; [None] is Python's [KeyError]. *)
Fixpoint getitem {V : Type} (d : list (CommHeaderType * V)) (key : CommHeaderType)
  : option V :=
  match d with
  | [] => None
  | (k, v) :: d' => if decide (k = key) then Some v else getitem d' key
  end.

(** [ModbusMessage.__init__(self, headerType, params, is_server)].  The new
    object is [self]; it enters the store with its attributes once the
    initialiser is done. *)
Definition ModbusMessage_init (headerType : CommHeaderType) (params : loc)
    (is_server : bool) (σ : State) : option (loc * State) :=
  let self := length (objects σ) in
  σ1 ← set_new_connection_class params (Lambda headerType self) σ;
  '(b, σ2) ← ModbusProtocol_init params is_server σ1;
  h ← getitem (header_dict self) headerType;
  Some (self, mkState (params_heap σ2)
                      (objects σ2 ++ [mkModbusMessage b h])
                      (trace σ2)).

(** Calling the closure. *)
Definition call (f : Callable) (σ : State) : option (loc * State) :=
  match f with
  | Lambda headerType self =>
      m ← objects σ !! self;
      ModbusMessage_init headerType (comm_params (base m)) false σ
  end.

(** Modelled from the spec: the transport (pymodbus/transport/transport.py),
    "on each newly accepted connection", invokes the factory the instance
    holds: [self.comm_params.new_connection_class()]. *)
Definition new_connection (l : loc) (σ : State) : option (loc * State) :=
  m ← objects σ !! l;
  p ← params_heap σ !! comm_params (base m);
  f ← new_connection_class p;
  call f σ.

(** [ModbusMessage.callback_data(self, data, addr)] *)
Definition callback_data (self : loc) (data : bytes) (addr : option Addr)
    (σ : State) : Z * State :=
  let σ1 := emit (Log_debug "callback_data called: {} addr={}" data [addr]) σ in
  (0%Z, σ1).

(** Modelled from the spec: [ModbusProtocol.transport_send(data, addr)]
    (pymodbus/transport/transport.py) is the transport's best-effort write
    of raw bytes for this connection. *)
Definition transport_send (self : loc) (data : bytes) (addr : option Addr)
    (σ : State) : State :=
  emit (Transport_send self data addr) σ.

(** [ModbusMessage.message_send(self, data, addr)] *)
Definition message_send (self : loc) (data : bytes) (addr : option Addr)
    (σ : State) : State :=
  let σ1 := emit (Log_debug "send: {}" data []) σ in
  transport_send self data addr σ1.

(** Python's [b[cut:]]. *)
Definition slice_from (cut : Z) (b : bytes) : bytes :=
  if (cut <? 0)%Z then drop (length b - Z.to_nat (- cut)) b
  else drop (Z.to_nat cut) b.

Definition set_recv_buffer (l : loc) (b : bytes) (σ : State) : option State :=
  m ← objects σ !! l;
  Some (mkState (params_heap σ)
          (<[l := mkModbusMessage
                    (mkModbusProtocol (comm_params (base m)) (is_server (base m)) b)
                    (header m)]> (objects σ))
          (trace σ)).

(** Modelled from the spec: the transport's delivery of inbound bytes
    (pymodbus/transport/transport.py): the bytes are appended to the
    connection's accumulator, the receive handler is called on the
    accumulated bytes, and the number of bytes it reports as consumed is
    removed from the front. *)
Definition data_received (l : loc) (data : bytes) (addr : option Addr)
    (σ : State) : option State :=
  m ← objects σ !! l;
  let buf := recv_buffer (base m) ++ data in
  σ1 ← set_recv_buffer l buf σ;
  let '(cut, σ2) := callback_data l buf addr σ1 in
  set_recv_buffer l (slice_from cut buf) σ2.

(** ** Histories of an instance family *)

Inductive Op : Type :=
| Accept (l : loc)
| Deliver (l : loc) (data : bytes) (addr : option Addr)
| Receive (l : loc) (data : bytes) (addr : option Addr)
| Send (l : loc) (data : bytes) (addr : option Addr).

Definition step (o : Op) (σ : State) : option State :=
  match o with
  | Accept l => snd <$> new_connection l σ
  | Deliver l d a => data_received l d a σ
  | Receive l d a => _ ← objects σ !! l; Some (snd (callback_data l d a σ))
  | Send l d a => _ ← objects σ !! l; Some (message_send l d a σ)
  end.

Fixpoint run (ops : list Op) (σ : State) : option State :=
  match ops with
  | [] => Some σ
  | o :: ops' => σ' ← step o σ; run ops' σ'
  end.

End Layer.

Arguments CommParams Cfg : clear implicits.
Arguments State Cfg : clear implicits.
Arguments mkCommParams {Cfg} fields new_connection_class.
Arguments fields {Cfg} c.
Arguments new_connection_class {Cfg} c.
Arguments mkState {Cfg} params_heap objects trace.
Arguments params_heap {Cfg} s.
Arguments objects {Cfg} s.
Arguments trace {Cfg} s.
Arguments emit {Cfg} e σ.
Arguments set_new_connection_class {Cfg} params f σ.
Arguments ModbusProtocol_init {Cfg} params_copied params is_server σ.
Arguments ModbusMessage_init {Cfg} params_copied headerType params is_server σ.
Arguments call {Cfg} params_copied f σ.
Arguments new_connection {Cfg} params_copied l σ.
Arguments callback_data {Cfg} self data addr σ.
Arguments transport_send {Cfg} self data addr σ.
Arguments message_send {Cfg} self data addr σ.
Arguments set_recv_buffer {Cfg} l b σ.
Arguments data_received {Cfg} l data addr σ.
Arguments step {Cfg} params_copied o σ.
Arguments run {Cfg} params_copied ops σ.

(** ** Checksum utilities of the specification *)

(** The sum of all bytes, as an unbounded integer. *)
Definition byte_sum (bs : bytes) : Z :=
  foldr (fun b acc => (Z.of_N (Byte.to_N b) + acc)%Z) 0%Z bs.

(** Two's complement of an 8-bit value: invert the eight bits, add one, keep
    eight bits. *)
Definition twos_complement8 (x : Z) : Z :=
  ((Z.lxor x 255 + 1) mod 256)%Z.

(** Modelled from the spec: [lrc(bytes) -> u8] of the checksum utilities,
    which is not under src/: "two's-complement of the sum of all bytes
    modulo 256". *)
Definition lrc (bs : bytes) : Z :=
  twos_complement8 (byte_sum bs mod 256).

(** ** Header codecs and the frame assembler of the specification *)

(** Modelled from the spec: why a codec rejects a buffer (bad protocol id or
    length field of the length-prefixed encodings, checksum mismatch,
    malformed delimiters or digits). *)
Inductive Reason : Type :=
| BadProtocolId
| BadLength
| BadChecksum
| BadFraming.

(** Modelled from the spec: the DecodeOutcome of the data model:
    "Complete{message, bytes_consumed}, Incomplete, Invalid{reason}". *)
Inductive DecodeOutcome : Type :=
| Complete (m : Message) (bytes_consumed : nat)
| Incomplete
| Invalid (reason : Reason).

(** Modelled from the spec: what the resynchronization rule of a codec asks
    for after [Invalid]: close the connection ("fatal"), or drop that many
    leading bytes and continue. *)
Inductive Resync : Type :=
| Fatal
| Skip (n : nat).

(** Modelled from the spec: the polymorphic capability of a Header Codec,
    as far as the Frame Assembler uses it. *)
Record HeaderCodec : Type := mkHeaderCodec {
  try_decode : bytes -> DecodeOutcome;
  resynchronize : bytes -> Reason -> Resync
}.

(** Modelled from the spec: whether the connection goes on or "must
    close" after a feed. *)
Inductive ConnectionStatus : Type := Open | Closed.

(** Modelled from the spec: what a feed leaves behind: the messages emitted
    in order, the bytes retained for the next delivery, and the status of
    the connection. *)
Record FeedResult : Type := mkFeedResult {
  emitted : list Message;
  retained : bytes;
  status : ConnectionStatus
}.

(** Modelled from the spec: the loop of the Frame Assembler, which is not
    under src/: "call codec.try_decode(buffer); on Complete, emit the
    message and remove the consumed prefix from the buffer, continue
    looping; on Incomplete, stop looping and keep the buffer as-is; on
    Invalid, drop the frame's leading bytes up to and including the point
    identified by the codec's resynchronization rule" (fatal for the
    encodings without a delimiter).  [fuel] bounds the number of
    iterations; [None] is a loop that has not stopped within it. *)
Fixpoint feed_loop (c : HeaderCodec) (fuel : nat) (buffer : bytes)
    (out : list Message) : option FeedResult :=
  match fuel with
  | O => None
  | S fuel' =>
      match try_decode c buffer with
      | Complete m n => feed_loop c fuel' (drop n buffer) (out ++ [m])
      | Incomplete => Some (mkFeedResult out buffer Open)
      | Invalid r =>
          match resynchronize c buffer r with
          | Fatal => Some (mkFeedResult out buffer Closed)
          | Skip n => feed_loop c fuel' (drop n buffer) out
          end
      end
  end.

(** Modelled from the spec: [feed(new_bytes)] of the Frame Assembler:
    "append to buffer, then loop". *)
Definition feed (c : HeaderCodec) (fuel : nat) (buffer new_bytes : bytes)
  : option FeedResult :=
  feed_loop c fuel (buffer ++ new_bytes) [].

(** The premise of the specification's termination argument: a [Complete]
    outcome removes a non-empty prefix, and a resynchronization skip strictly
    shrinks the buffer. *)
Record progressive (c : HeaderCodec) : Prop := mkProgressive {
  complete_consumes :
    forall (buffer : bytes) m n,
      try_decode c buffer = Complete m n -> 0 < n <= length buffer;
  resync_shrinks :
    forall (buffer : bytes) r n,
      try_decode c buffer = Invalid r ->
      resynchronize c buffer r = Skip n ->
      length (drop n buffer) < length buffer
}.

(** A 16-bit big-endian field. *)
Definition u16_be (hi lo : byte) : N := (Byte.to_N hi * 256 + Byte.to_N lo)%N.

Definition byte_of_N (n : N) : byte := default x00 (Byte.of_N (n mod 256)).

(** Modelled from the spec: [encode] of the Socket variant, which is not
    under src/: "transaction-id(2B) + protocol-id(2B, must be 0) +
    length(2B, counts unit-id+payload) + unit-id(1B) + payload", the payload
    being the function code followed by the data, fields big-endian as in
    scenario 1; a message without transaction id is sent with id 0. *)
Definition socket_encode (m : Message) : bytes :=
  let tid := default 0%N (transaction_id m) in
  let len := N.of_nat (2 + length (data m)) in
  [ byte_of_N (tid / 256); byte_of_N tid; x00; x00;
    byte_of_N (len / 256); byte_of_N len;
    unit_id m; function_code m ] ++ data m.

(** Modelled from the spec: [try_decode] of the Socket variant, which is not
    under src/: "Need >= 6 bytes to read length; frame complete once
    6 + length bytes buffered"; "protocol-id <> 0 => Invalid; length <= 0 or
    exceeds a configured maximum => Invalid".  A frame whose length leaves no
    room for the function code carries no Message and is reported as a bad
    length too. *)
Definition socket_try_decode (max_length : N) (buffer : bytes) : DecodeOutcome :=
  match buffer with
  | t1 :: t0 :: p1 :: p0 :: l1 :: l0 :: rest =>
      let len := u16_be l1 l0 in
      if negb (u16_be p1 p0 =? 0)%N then Invalid BadProtocolId
      else if ((len =? 0)%N || (max_length <? len)%N)%bool then Invalid BadLength
      else if length rest <? N.to_nat len then Incomplete
      else match take (N.to_nat len) rest with
           | u :: f :: d =>
               Complete (mkMessage u f d (Some (u16_be t1 t0))) (6 + N.to_nat len)
           | _ => Invalid BadLength
           end
  | _ => Incomplete
  end.

(** Modelled from the spec: the Socket variant, for which "there is no
    delimiter to resynchronize on": an [Invalid] outcome is fatal. *)
Definition socket_codec (max_length : N) : HeaderCodec :=
  mkHeaderCodec (socket_try_decode max_length) (fun _ _ => Fatal).

(** ** Concrete data: scenario 1 of the specification *)

Definition scenario_message : Message :=
  mkMessage x01 x03 [x00; x00; x00; x02] (Some 1%N).

Definition scenario_frame : bytes :=
  [x00; x01; x00; x00; x00; x06; x01; x03; x00; x00; x00; x02].

(** The request as the caller of [message_send] holds it: function code and
    data, before any header is added. *)
Definition scenario_pdu : bytes := [x03; x00; x00; x00; x02].

(** A configuration for the examples: host and port. *)
Definition example_cfg : string * Z := ("localhost"%string, 502%Z).

(** A store with one caller-supplied parameter object and no instance. *)
Definition fresh_store {Cfg : Type} (cfg : Cfg) : State Cfg :=
  mkState [mkCommParams cfg None] [] [].

(** The store after [ModbusMessage(headerType, params, is_server)] in
    [fresh_store example_cfg]. *)
Definition built (copied : bool) (headerType : CommHeaderType) (is_server : bool)
  : State (string * Z) :=
  default (fresh_store example_cfg)
    (snd <$> ModbusMessage_init copied headerType 0 is_server
               (fresh_store example_cfg)).

(** A history: the first instance accepts a connection, receives a frame,
    the accepted instance sends a request, and the transport delivers a frame
    to the first instance. *)
Definition example_history : list Op :=
  [ Accept 0;
    Receive 0 scenario_frame None;
    Send 1 scenario_pdu None;
    Deliver 0 scenario_frame None ].

(** The store after a history; the store itself if the history is stuck. *)
Definition after {Cfg : Type} (copied : bool) (ops : list Op) (σ : State Cfg)
  : State Cfg :=
  default σ (run copied ops σ).

(** ** Vocabulary of the statements *)

(** The enum member a header object stands for. *)
Definition header_type (h : ModbusHeader) : CommHeaderType :=
  match h with
  | HeaderSocket _ => SOCKET
  | HeaderTLS _ => TLS
  | HeaderRTU _ => RTU
  | HeaderASCII _ => ASCII
  | HeaderBinary _ => BINARY
  end.

(** The invariant of a store whose instances all descend from one
    construction with header type [ht] and configuration [cfg]: every
    instance carries the header of [ht] pointing back at itself, and is bound
    to a parameter object that holds [cfg] and a factory closure over [ht]
    and a live instance. *)
Definition family {Cfg : Type} (ht : CommHeaderType) (cfg : Cfg) (σ : State Cfg)
  : Prop :=
  forall l m, objects σ !! l = Some m ->
    getitem (header_dict l) ht = Some (header m) /\
    exists cp s,
      params_heap σ !! comm_params (base m) = Some cp /\
      fields cp = cfg /\
      new_connection_class cp = Some (Lambda ht s) /\
      s < length (objects σ).

(** ** The enum by value, the package's exports, and readings of a history *)

(** [list(CommHeaderType)]: the members in definition order. *)
Definition CommHeaderType_members : list CommHeaderType :=
  [SOCKET; TLS; RTU; ASCII; BINARY].

(** [CommHeaderType(v)]: the member whose value is [v]; [None] is Python's
    [ValueError]. *)
Definition CommHeaderType_of_value (v : Z) : option CommHeaderType :=
  List.find (fun t => (CommHeaderType_value t =? v)%Z) CommHeaderType_members.





(** The payloads of the [message_send] calls of instance [l] in a history,
    in order. *)
Definition sends_of (l : loc) (ops : list Op) : list bytes :=
  omap (fun o => match o with
                 | Send l' d _ => if decide (l' = l) then Some d else None
                 | _ => None
                 end) ops.

(** The bytes the transport delivered to instance [l] in a history, in
    order. *)
Definition deliveries_of (l : loc) (ops : list Op) : bytes :=
  concat (omap (fun o => match o with
                         | Deliver l' d _ => if decide (l' = l) then Some d else None
                         | _ => None
                         end) ops).

(** The number of accepted connections in a history. *)
Definition accepts (ops : list Op) : nat :=
  length (omap (fun o => match o with Accept l => Some l | _ => None end) ops).

(** * Properties of the message layer *)

Section LayerProofs.
Context {Cfg : Type} (copied : bool).
Implicit Types (σ τ : State Cfg) (cp : CommParams Cfg) (ht : CommHeaderType).

Lemma getitem_header_dict ht self :
  getitem (header_dict self) ht =
  Some match ht with
       | SOCKET => HeaderSocket self
       | TLS => HeaderTLS self
       | RTU => HeaderRTU self
       | ASCII => HeaderASCII self
       | BINARY => HeaderBinary self
       end.
Proof. by destruct ht. Qed.

Lemma init_Some ht p srv σ cp :
  params_heap σ !! p = Some cp ->
  exists h,
    getitem (header_dict (length (objects σ))) ht = Some h /\
    ModbusMessage_init copied ht p srv σ =
    Some (length (objects σ),
          let cp' := mkCommParams (fields cp) (Some (Lambda ht (length (objects σ)))) in
          mkState
            (if copied then <[p := cp']> (params_heap σ) ++ [cp']
             else <[p := cp']> (params_heap σ))
            (objects σ ++
               [mkModbusMessage
                  (mkModbusProtocol (if copied then length (params_heap σ) else p) srv [])
                  h])
            (trace σ)).
Proof.
  intros Hp. pose proof (lookup_lt_Some _ _ _ Hp) as Hlt.
  eexists. split; [apply getitem_header_dict|].
  unfold ModbusMessage_init, set_new_connection_class, ModbusProtocol_init.
  rewrite Hp. cbn -[getitem header_dict].
  rewrite list_lookup_insert_eq by done. cbn -[getitem header_dict].
  rewrite getitem_header_dict.
  destruct copied; cbn; rewrite ?length_insert; reflexivity.
Qed.

Lemma init_inv ht p srv σ l σ' :
  ModbusMessage_init copied ht p srv σ = Some (l, σ') ->
  exists cp, params_heap σ !! p = Some cp.
Proof.
  unfold ModbusMessage_init, set_new_connection_class.
  destruct (params_heap σ !! p) as [cp|]; [eauto|discriminate].
Qed.


Lemma init_family ht cfg p srv σ cp l σ' :
  family ht cfg σ ->
  params_heap σ !! p = Some cp ->
  fields cp = cfg ->
  ModbusMessage_init copied ht p srv σ = Some (l, σ') ->
  family ht cfg σ'.
Proof.
  intros Hfam Hp Hcfg Hinit.
  destruct (init_Some ht p srv σ cp Hp) as (h & Hh & E).
  rewrite E in Hinit. injection Hinit as <- <-. clear E.
  pose proof (lookup_lt_Some _ _ _ Hp) as Hlt.
  set (cp' := mkCommParams (fields cp) (Some (Lambda ht (length (objects σ))))).
  assert (Hnew : forall q, q = p ->
            (if copied then <[p := cp']> (params_heap σ) ++ [cp']
             else <[p := cp']> (params_heap σ)) !! q = Some cp').
  { intros q ->. destruct copied.
    - rewrite lookup_app_l by (rewrite length_insert; done).
      by apply list_lookup_insert_eq.
    - by apply list_lookup_insert_eq. }
  assert (Hold : forall q c, q <> p -> params_heap σ !! q = Some c ->
            (if copied then <[p := cp']> (params_heap σ) ++ [cp']
             else <[p := cp']> (params_heap σ)) !! q = Some c).
  { intros q c Hne Hq. pose proof (lookup_lt_Some _ _ _ Hq).
    destruct copied.
    - rewrite lookup_app_l by (rewrite length_insert; done).
      by rewrite list_lookup_insert_ne.
    - by rewrite list_lookup_insert_ne. }
  intros l m Hl. cbn in Hl |- *. rewrite length_app. cbn.
  destruct (decide (l < length (objects σ))) as [Hin|Hout].
  - rewrite lookup_app_l in Hl by done.
    destruct (Hfam l m Hl) as (Hhdr & c & s & Hc & Hf & Hn & Hs).
    split; [done|].
    destruct (decide (comm_params (base m) = p)) as [Heq|Hne].
    + exists cp', (length (objects σ)). rewrite (Hnew _ Heq).
      repeat split; [done|lia].
    + exists c, s. rewrite (Hold _ _ Hne Hc). repeat split; [done..|lia].
  - rewrite lookup_app_r in Hl by lia.
    destruct (l - length (objects σ)) as [|k] eqn:Hk; [|by destruct k].
    assert (l = length (objects σ)) as ->.
    { apply lookup_lt_Some in Hl. cbn in Hl. lia. }
    injection Hl as <-. cbn. split; [done|].
    exists cp', (length (objects σ)).
    split; [|repeat split; [done|lia]].
    destruct copied.
    + rewrite lookup_app_r by (rewrite length_insert; done).
      rewrite length_insert, Nat.sub_diag. done.
    + by apply Hnew.
Qed.

Lemma family_empty ht (cfg : Cfg) σ : objects σ = [] -> family ht cfg σ.
Proof. intros E l m Hl. rewrite E in Hl. discriminate. Qed.

(** The factory of a family member is callable and builds from a parameter
    object of the family. *)
Lemma new_connection_family ht cfg σ l m :
  family ht cfg σ ->
  objects σ !! l = Some m ->
  exists s ms cps,
    objects σ !! s = Some ms /\
    params_heap σ !! comm_params (base ms) = Some cps /\
    fields cps = cfg /\
    new_connection copied l σ =
      ModbusMessage_init copied ht (comm_params (base ms)) false σ.
Proof.
  intros Hfam Hl.
  destruct (Hfam l m Hl) as (_ & c & s & Hc & _ & Hn & Hs).
  destruct (lookup_lt_is_Some_2 _ _ Hs) as [ms Hms].
  destruct (Hfam s ms Hms) as (_ & cs & ? & Hcs & Hfs & _).
  exists s, ms, cs. repeat split; [done..|].
  unfold new_connection. rewrite Hl. cbn. rewrite Hc. cbn. rewrite Hn. cbn.
  unfold call. by rewrite Hms.
Qed.

Lemma data_received_Some l d a σ m :
  objects σ !! l = Some m ->
  data_received l d a σ =
  Some (mkState (params_heap σ)
          (<[l := mkModbusMessage
                    (mkModbusProtocol (comm_params (base m)) (is_server (base m))
                                      (recv_buffer (base m) ++ d))
                    (header m)]> (objects σ))
          (trace σ ++ [Log_debug "callback_data called: {} addr={}"
                         (recv_buffer (base m) ++ d) [a]])).
Proof.
  intros Hl. pose proof (lookup_lt_Some _ _ _ Hl).
  unfold data_received, set_recv_buffer. rewrite Hl. cbn.
  rewrite list_lookup_insert_eq by done. cbn.
  by rewrite list_insert_insert_eq.
Qed.

Lemma data_received_inv l d a σ σ' :
  data_received l d a σ = Some σ' -> exists m, objects σ !! l = Some m.
Proof.
  unfold data_received. destruct (objects σ !! l); [eauto|discriminate].
Qed.


Lemma new_connection_inv l σ r :
  new_connection copied l σ = Some r ->
  exists ht p, ModbusMessage_init copied ht p false σ = Some r.
Proof.
  unfold new_connection, call. intros H.
  destruct (objects σ !! l) as [m|]; [cbn in H|discriminate].
  destruct (params_heap σ !! comm_params (base m)) as [c|]; [cbn in H|discriminate].
  destruct (new_connection_class c) as [[ht s]|]; [cbn in H|discriminate].
  destruct (objects σ !! s) as [ms|]; [cbn in H|discriminate].
  eauto.
Qed.

Lemma init_objects ht p srv σ l σ' :
  ModbusMessage_init copied ht p srv σ = Some (l, σ') ->
  l = length (objects σ) /\ trace σ' = trace σ /\
  exists m, objects σ' = objects σ ++ [m] /\
    getitem (header_dict l) ht = Some (header m) /\
    is_server (base m) = srv /\ recv_buffer (base m) = [].
Proof.
  intros H. destruct (init_inv _ _ _ _ _ _ H) as [cp Hp].
  destruct (init_Some ht p srv σ cp Hp) as (h & Hh & E).
  rewrite E in H. injection H as <- <-. cbn. eauto 10.
Qed.

(** What an instance is: everything but its accumulator. *)
Lemma step_preserves o σ σ' l m :
  step copied o σ = Some σ' ->
  objects σ !! l = Some m ->
  exists m', objects σ' !! l = Some m' /\
    header m' = header m /\
    comm_params (base m') = comm_params (base m) /\
    is_server (base m') = is_server (base m).
Proof.
  intros Hstep Hl. destruct o as [l0|l0 d a|l0 d a|l0 d a]; cbn in Hstep.
  - destruct (new_connection copied l0 σ) as [[c σ1]|] eqn:E; [|discriminate].
    injection Hstep as <-.
    destruct (new_connection_inv _ _ _ E) as (ht & p & Hinit).
    destruct (init_objects _ _ _ _ _ _ Hinit) as (_ & _ & mn & -> & _).
    exists m. split; [|done]. by apply lookup_app_l_Some.
  - destruct (data_received_inv _ _ _ _ _ Hstep) as [m0 Hm0].
    rewrite (data_received_Some _ _ _ _ _ Hm0) in Hstep. injection Hstep as <-.
    cbn. destruct (decide (l = l0)) as [->|Hne].
    + rewrite list_lookup_insert_eq by (by eapply lookup_lt_Some).
      assert (m0 = m) as -> by congruence. eauto.
    + rewrite list_lookup_insert_ne by done. eauto.
  - destruct (objects σ !! l0); [|discriminate]. injection Hstep as <-. eauto.
  - destruct (objects σ !! l0); [|discriminate]. injection Hstep as <-. eauto.
Qed.

Lemma run_preserves ops σ σ' l m :
  run copied ops σ = Some σ' ->
  objects σ !! l = Some m ->
  exists m', objects σ' !! l = Some m' /\
    header m' = header m /\
    comm_params (base m') = comm_params (base m) /\
    is_server (base m') = is_server (base m).
Proof.
  revert σ m. induction ops as [|o ops IH]; intros σ m Hrun Hl; cbn in Hrun.
  - injection Hrun as <-. eauto.
  - destruct (step copied o σ) as [σ1|] eqn:E; [cbn in Hrun|discriminate].
    destruct (step_preserves _ _ _ _ _ E Hl) as (m1 & Hl1 & Hh & Hc & Hs).
    destruct (IH _ _ Hrun Hl1) as (m' & Hl' & Hh' & Hc' & Hs').
    exists m'. split; [done|]. repeat split; congruence.
Qed.

Lemma family_ext ht (cfg : Cfg) σ σ' :
  params_heap σ' = params_heap σ ->
  objects σ' = objects σ ->
  family ht cfg σ -> family ht cfg σ'.
Proof. unfold family. intros -> ->. done. Qed.

Lemma step_family ht cfg o σ σ' :
  family ht cfg σ ->
  step copied o σ = Some σ' ->
  family ht cfg σ'.
Proof.
  intros Hfam Hstep. destruct o as [l0|l0 d a|l0 d a|l0 d a]; cbn in Hstep.
  - destruct (new_connection copied l0 σ) as [[c σ1]|] eqn:E; [|discriminate].
    injection Hstep as <-.
    assert (exists m, objects σ !! l0 = Some m) as [m Hm].
    { unfold new_connection in E. destruct (objects σ !! l0); [eauto|discriminate]. }
    destruct (new_connection_family _ _ _ _ _ Hfam Hm)
      as (s & ms & cps & _ & Hcps & Hf & Hnc).
    rewrite Hnc in E. by eapply init_family.
  - destruct (data_received_inv _ _ _ _ _ Hstep) as [m0 Hm0].
    rewrite (data_received_Some _ _ _ _ _ Hm0) in Hstep. injection Hstep as <-.
    pose proof (lookup_lt_Some _ _ _ Hm0) as Hlt.
    intros l m Hl. cbn in Hl |- *. rewrite length_insert.
    destruct (decide (l = l0)) as [->|Hne].
    + rewrite list_lookup_insert_eq in Hl by done. injection Hl as <-. cbn.
      by apply Hfam.
    + rewrite list_lookup_insert_ne in Hl by done. by apply Hfam.
  - destruct (objects σ !! l0); [|discriminate]. injection Hstep as <-.
    by eapply family_ext; [..|apply Hfam].
  - destruct (objects σ !! l0); [|discriminate]. injection Hstep as <-.
    by eapply family_ext; [..|apply Hfam].
Qed.

Lemma run_family ht cfg ops σ σ' :
  family ht cfg σ ->
  run copied ops σ = Some σ' ->
  family ht cfg σ'.
Proof.
  revert σ. induction ops as [|o ops IH]; intros σ Hfam Hrun; cbn in Hrun.
  - by injection Hrun as <-.
  - destruct (step copied o σ) as [σ1|] eqn:E; [cbn in Hrun|discriminate].
    eauto using step_family.
Qed.


Lemma header_type_getitem ht l h :
  getitem (header_dict l) ht = Some h -> header_type h = ht /\ message h = l.
Proof. rewrite getitem_header_dict. intros [= <-]. by destruct ht. Qed.

Lemma delivered_emit_log (σ : State Cfg) fmt d rest :
  delivered (trace (emit (Log_debug fmt d rest) σ)) = delivered (trace σ).
Proof. unfold delivered. cbn. rewrite omap_app. cbn. by rewrite app_nil_r. Qed.

(** C8.  For every member of [CommHeaderType], constructing a
    [ModbusMessage] on a live parameter object succeeds; the new instance's
    [header] is an object of the matching class ([SOCKET] to
    [HeaderSocket], [TLS] to [HeaderTLS], [RTU] to [HeaderRTU], [ASCII] to
    [HeaderASCII], [BINARY] to [HeaderBinary]) and its [message] attribute
    is the constructed instance itself. *)
Theorem init_binds_matching_header ht p srv σ cp :
  params_heap σ !! p = Some cp ->
  exists self σ' m,
    ModbusMessage_init copied ht p srv σ = Some (self, σ') /\
    objects σ !! self = None /\
    objects σ' !! self = Some m /\
    header m = match ht with
               | SOCKET => HeaderSocket self
               | TLS => HeaderTLS self
               | RTU => HeaderRTU self
               | ASCII => HeaderASCII self
               | BINARY => HeaderBinary self
               end /\
    message (header m) = self.
Proof.
  intros Hp. destruct (init_Some ht p srv σ cp Hp) as (h & Hh & E).
  eexists _, _, _. split; [exact E|]. cbn.
  split; [by apply lookup_ge_None_2|].
  split; [by rewrite lookup_app_r, Nat.sub_diag|]. cbn.
  rewrite getitem_header_dict in Hh. injection Hh as <-.
  split; [done|]. by destruct ht.
Qed.

(** C7.  [__init__] first writes the closure
    [Lambda headerType self] into [new_connection_class] of the caller's
    parameter object, and the superclass initialiser then runs on the store
    that already holds it: the store the constructor returns is the one the
    superclass initialiser left, with the new instance added, so the
    configuration the instance is bound to (the superclass's copy, or the
    caller's object) carries the closure too, as the caller's object still
    does.  Calling that closure, in whatever store, yields an instance with
    [is_server = false], whatever role [is_server] the parent was built
    with; right after construction the call does succeed. *)
Theorem init_overwrites_factory ht p srv σ cp :
  params_heap σ !! p = Some cp ->
  exists self σ1 b σ2 σ' m,
    self = length (objects σ) /\
    set_new_connection_class p (Lambda ht self) σ = Some σ1 /\
    params_heap σ1 !! p = Some (mkCommParams (fields cp) (Some (Lambda ht self))) /\
    ModbusProtocol_init copied p srv σ1 = Some (b, σ2) /\
    ModbusMessage_init copied ht p srv σ = Some (self, σ') /\
    params_heap σ' = params_heap σ2 /\
    objects σ' = objects σ2 ++ [m] /\
    trace σ' = trace σ2 /\
    objects σ' !! self = Some m /\ base m = b /\
    params_heap σ' !! p = Some (mkCommParams (fields cp) (Some (Lambda ht self))) /\
    params_heap σ' !! comm_params (base m)
      = Some (mkCommParams (fields cp) (Some (Lambda ht self))) /\
    (exists child σc mc,
        call copied (Lambda ht self) σ' = Some (child, σc) /\
        objects σc !! child = Some mc /\
        is_server (base mc) = false) /\
    (forall τ child τ',
        call copied (Lambda ht self) τ = Some (child, τ') ->
        exists mc, objects τ' !! child = Some mc /\ is_server (base mc) = false).
Proof.
  intros Hp. pose proof (lookup_lt_Some _ _ _ Hp) as Hlt.
  destruct (init_Some ht p srv σ cp Hp) as (h & Hh & E).
  set (self := length (objects σ)) in *.
  set (cp' := mkCommParams (fields cp) (Some (Lambda ht self))) in *.
  assert (Hcall : forall τ child τ',
            call copied (Lambda ht self) τ = Some (child, τ') ->
            exists mc, objects τ' !! child = Some mc /\ is_server (base mc) = false).
  { intros τ child τ' Hc. unfold call in Hc.
    destruct (objects τ !! self) as [ms|]; [cbn in Hc|discriminate].
    destruct (init_objects _ _ _ _ _ _ Hc) as (-> & _ & mc & -> & _ & Hsrv & _).
    exists mc. split; [|done]. by rewrite lookup_app_r, Nat.sub_diag. }
  assert (Hself : forall σ' ms c,
            objects σ' !! self = Some ms ->
            params_heap σ' !! comm_params (base ms) = Some c ->
            exists child σc mc,
              call copied (Lambda ht self) σ' = Some (child, σc) /\
              objects σc !! child = Some mc /\
              is_server (base mc) = false).
  { intros σ' ms c Hms Hc.
    destruct (init_Some ht (comm_params (base ms)) false σ' c Hc) as (h' & _ & E').
    assert (Hc' : call copied (Lambda ht self) σ' =
                  ModbusMessage_init copied ht (comm_params (base ms)) false σ').
    { unfold call. by rewrite Hms. }
    rewrite E' in Hc'.
    destruct (Hcall _ _ _ Hc') as (mc & Hmc & Hsrv). eauto 10. }
  unfold ModbusProtocol_init.
  destruct copied; (eexists self, _, _, _, _, _; split; [done|]);
    (split; [unfold set_new_connection_class; rewrite Hp; reflexivity|]);
    (split; [cbn; by apply list_lookup_insert_eq|]);
    (split; [cbn; rewrite list_lookup_insert_eq by done; reflexivity|]);
    (split; [exact E|]); cbn -[call];
    do 3 (split; [reflexivity|]);
    (split; [by rewrite lookup_app_r, Nat.sub_diag|]);
    (split; [by rewrite ?length_insert|]).
  - split.
    { rewrite lookup_app_l by (by rewrite length_insert).
      by apply list_lookup_insert_eq. }
    split.
    { rewrite lookup_app_r by (by rewrite length_insert).
      by rewrite length_insert, Nat.sub_diag. }
    split; [|exact Hcall].
    eapply Hself; cbn.
    + by rewrite lookup_app_r, Nat.sub_diag.
    + cbn. rewrite lookup_app_r by (by rewrite length_insert).
      by rewrite length_insert, Nat.sub_diag.
  - split; [by apply list_lookup_insert_eq|].
    split; [by apply list_lookup_insert_eq|].
    split; [|exact Hcall].
    eapply Hself; cbn.
    + by rewrite lookup_app_r, Nat.sub_diag.
    + cbn. by apply list_lookup_insert_eq.
Qed.

(** C5.  After construction with [headerType], no history of accepted
    connections, deliveries, [callback_data] and [message_send] calls, on
    this or on any other instance, changes the instance's [header]: it is the
    header bound by the constructor, of the type chosen there. *)
Theorem header_fixed_after_construction ht p srv σ0 self σ1 ops σ :
  ModbusMessage_init copied ht p srv σ0 = Some (self, σ1) ->
  run copied ops σ1 = Some σ ->
  exists m1 m,
    objects σ1 !! self = Some m1 /\
    objects σ !! self = Some m /\
    header m = header m1 /\
    header_type (header m) = ht.
Proof.
  intros Hinit Hrun.
  destruct (init_objects _ _ _ _ _ _ Hinit) as (-> & _ & m1 & Hobj & Hh & _).
  assert (Hm1 : objects σ1 !! length (objects σ0) = Some m1).
  { by rewrite Hobj, lookup_app_r, Nat.sub_diag. }
  destruct (run_preserves _ _ _ _ _ Hrun Hm1) as (m & Hm & Hhm & _).
  exists m1, m. repeat split; [done..|].
  rewrite Hhm. by apply header_type_getitem in Hh as [? _].
Qed.

(** C6.  For every byte string and address, [callback_data] returns 0:
    dropping the reported number of bytes leaves the delivered bytes whole,
    no object of the store changes, nothing is handed to the application or
    to the transport, and a delivery through the transport's accumulator
    leaves the accumulator extended by exactly the delivered bytes. *)
Theorem callback_data_returns_zero (σ : State Cfg) self d addr :
  fst (callback_data self d addr σ) = 0%Z /\
  slice_from (fst (callback_data self d addr σ)) d = d /\
  params_heap (snd (callback_data self d addr σ)) = params_heap σ /\
  objects (snd (callback_data self d addr σ)) = objects σ /\
  delivered (trace (snd (callback_data self d addr σ))) = delivered (trace σ) /\
  (forall l, handed_to_transport l (trace (snd (callback_data self d addr σ)))
             = handed_to_transport l (trace σ)) /\
  (data_received self d addr σ ≫= fun τ => objects τ !! self) =
    (fun m => mkModbusMessage
                (mkModbusProtocol (comm_params (base m)) (is_server (base m))
                                  (recv_buffer (base m) ++ d))
                (header m)) <$> objects σ !! self.
Proof.
  repeat split.
  - apply delivered_emit_log.
  - intros l. unfold handed_to_transport. cbn. rewrite omap_app. cbn.
    by rewrite app_nil_r.
  - destruct (objects σ !! self) as [m|] eqn:Hm.
    + rewrite (data_received_Some _ _ _ _ _ Hm). cbn.
      by rewrite list_lookup_insert_eq by (by eapply lookup_lt_Some).
    + unfold data_received. by rewrite Hm.
Qed.


(** C4.  A [ModbusMessage] built in server role, after any history of its
    family, holds a factory whose invocation succeeds and yields a new
    instance (a location the store did not hold), with a header of the
    parent's header type that points back at the new instance, bound to a
    parameter object whose configuration fields are those the parent was
    given, and with an empty accumulator of its own: bytes delivered to the
    child leave the parent as it was, and bytes delivered to the parent leave
    the child as it was. *)
Theorem server_factory_spawns_independent_instance
    ht p cp σ0 parent σ1 ops σ :
  objects σ0 = [] ->
  params_heap σ0 !! p = Some cp ->
  ModbusMessage_init copied ht p true σ0 = Some (parent, σ1) ->
  run copied ops σ1 = Some σ ->
  exists child σ' mp mc pp pc,
    new_connection copied parent σ = Some (child, σ') /\
    objects σ !! child = None /\
    child <> parent /\
    objects σ !! parent = Some mp /\
    objects σ' !! parent = Some mp /\
    is_server (base mp) = true /\
    objects σ' !! child = Some mc /\
    header_type (header mp) = ht /\
    header_type (header mc) = ht /\
    message (header mc) = child /\
    params_heap σ' !! comm_params (base mp) = Some pp /\
    params_heap σ' !! comm_params (base mc) = Some pc /\
    fields pp = fields cp /\
    fields pc = fields cp /\
    recv_buffer (base mc) = [] /\
    (forall d a τ, data_received child d a σ' = Some τ ->
                   objects τ !! parent = Some mp) /\
    (forall d a τ, data_received parent d a σ' = Some τ ->
                   objects τ !! child = Some mc).
Proof.
  intros Hempty Hp Hinit Hrun.
  pose proof (init_family ht (fields cp) p true σ0 cp parent σ1
                (family_empty _ _ _ Hempty) Hp eq_refl Hinit) as Hfam1.
  pose proof (run_family _ _ _ _ _ Hfam1 Hrun) as Hfam.
  destruct (init_objects _ _ _ _ _ _ Hinit) as (-> & _ & m1 & Hobj1 & _ & Hsrv1 & _).
  assert (Hm1 : objects σ1 !! length (objects σ0) = Some m1).
  { by rewrite Hobj1, lookup_app_r, Nat.sub_diag. }
  destruct (run_preserves _ _ _ _ _ Hrun Hm1) as (mp & Hmp & _ & _ & Hsrv).
  set (parent := length (objects σ0)) in *.
  destruct (new_connection_family _ _ _ _ _ Hfam Hmp)
    as (s & ms & cps & Hms & Hcps & Hfs & Hnc).
  destruct (ModbusMessage_init copied ht (comm_params (base ms)) false σ)
    as [[child σ']|] eqn:Hchild.
  2:{ destruct (init_Some ht (comm_params (base ms)) false σ cps Hcps)
        as (? & _ & E). congruence. }
  pose proof (init_family _ _ _ _ _ _ _ _ Hfam Hcps Hfs Hchild) as Hfam'.
  destruct (init_objects _ _ _ _ _ _ Hchild) as (-> & _ & mc & Hobj & _ & _ & Hbuf).
  pose proof (lookup_lt_Some _ _ _ Hmp) as Hlt.
  assert (Hmp' : objects σ' !! parent = Some mp).
  { rewrite Hobj. by apply lookup_app_l_Some. }
  assert (Hmc' : objects σ' !! length (objects σ) = Some mc).
  { by rewrite Hobj, lookup_app_r, Nat.sub_diag. }
  destruct (Hfam' _ _ Hmp') as (Hhp & pp & ? & Hpp & Hfp & _).
  destruct (Hfam' _ _ Hmc') as (Hhc & pc & ? & Hpc & Hfc & _).
  apply header_type_getitem in Hhp as [Htp _].
  apply header_type_getitem in Hhc as [Htc Hback].
  exists (length (objects σ)), σ', mp, mc, pp, pc.
  split; [by rewrite Hnc|].
  split; [by apply lookup_ge_None_2|].
  split; [lia|].
  do 12 (split; [congruence|]).
  split.
  - intros d a τ Hτ. rewrite (data_received_Some _ _ _ _ _ Hmc') in Hτ.
    injection Hτ as <-. cbn. rewrite list_lookup_insert_ne by lia. done.
  - intros d a τ Hτ. rewrite (data_received_Some _ _ _ _ _ Hmp') in Hτ.
    injection Hτ as <-. cbn. rewrite list_lookup_insert_ne by lia. done.
Qed.

End LayerProofs.

(** C1, evaluated on the source.  The twelve bytes of a complete Socket
    frame are one message for the specification's frame assembler; the
    receive path of [ModbusMessage] returns 0 on them, hands nothing to the
    application, and leaves the whole frame in the accumulator. *)
Theorem receive_path_keeps_complete_frame (copied : bool) :
  feed (socket_codec 260) 13 [] scenario_frame
    = Some (mkFeedResult [scenario_message] [] Open) /\
  exists self σ1 σ m,
    ModbusMessage_init copied SOCKET 0 true (fresh_store example_cfg) = Some (self, σ1) /\
    fst (callback_data self scenario_frame None σ1) = 0%Z /\
    delivered (trace (snd (callback_data self scenario_frame None σ1))) = [] /\
    data_received self scenario_frame None σ1 = Some σ /\
    delivered (trace σ) = [] /\
    objects σ !! self = Some m /\
    recv_buffer (base m) = scenario_frame.
Proof.
  split; [reflexivity|].
  destruct copied; eexists _, _, _, _; repeat split; reflexivity.
Qed.

(** C2, evaluated on the source.  [message_send] hands its argument to
    the transport as it is, for every header type: for the request
    [03 00 00 00 02] the transport receives these five bytes, not the
    twelve bytes of the Socket encoding of the message. *)
Theorem message_send_forwards_input_verbatim (copied : bool) :
  (forall (Cfg : Type) (σ : State Cfg) l d a,
     handed_to_transport l (trace (message_send l d a σ))
     = handed_to_transport l (trace σ) ++ [d]) /\
  socket_encode scenario_message = scenario_frame /\
  forall ht, exists self σ1,
    ModbusMessage_init copied ht 0 false (fresh_store example_cfg) = Some (self, σ1) /\
    handed_to_transport self (trace (message_send self scenario_pdu None σ1))
      = [scenario_pdu] /\
    scenario_pdu <> scenario_frame.
Proof.
  split.
  { intros Cfg σ l d a. unfold handed_to_transport. cbn.
    rewrite <- app_assoc, omap_app. cbn. by rewrite decide_True. }
  split; [reflexivity|].
  intros ht. destruct copied, ht; eexists _, _; (repeat split; [reflexivity..|]);
    discriminate.
Qed.

(** C3, evaluated on the source.  The specification's Socket codec
    decodes its own encoding of the message; through the layer of the source
    (one instance sends, the instance accepted from it receives what was put
    on the wire) the bytes travel without any header and no message is
    decoded, for each of the five header types. *)
Theorem layer_round_trip_yields_no_message (copied : bool) (ht : CommHeaderType) :
  socket_try_decode 260 (socket_encode scenario_message)
    = Complete scenario_message 12 /\
  exists parent σ1 σ2 wire σ3,
    ModbusMessage_init copied ht 0 true (fresh_store example_cfg) = Some (parent, σ1) /\
    run copied [Accept parent; Send parent scenario_pdu None] σ1 = Some σ2 /\
    handed_to_transport parent (trace σ2) = [wire] /\
    wire = scenario_pdu /\
    data_received 1 wire None σ2 = Some σ3 /\
    delivered (trace σ3) = [].
Proof.
  split; [reflexivity|].
  destruct copied, ht; eexists _, _, _, _, _; repeat split; reflexivity.
Qed.

(** * The checksum and the frame assembler of the specification *)

Section Checksum.
Local Open Scope Z_scope.

Lemma byte_sum_cons b (bs : bytes) :
  byte_sum (b :: bs) = Z.of_N (Byte.to_N b) + byte_sum bs.
Proof. reflexivity. Qed.

Lemma byte_sum_nonneg (bs : bytes) : 0 <= byte_sum bs.
Proof.
  induction bs as [|b bs IH]; [done|]. rewrite byte_sum_cons. lia.
Qed.

(** Inverting the low eight bits of an 8-bit value is subtracting it from 255. *)
Lemma lxor_255 x : 0 <= x < 256 -> Z.lxor x 255 = 255 - x.
Proof.
  intros Hx.
  assert (Hland : Z.land (Z.lxor x 255) x = 0).
  { apply Z.bits_inj'. intros n Hn.
    rewrite Z.land_spec, Z.lxor_spec, Z.bits_0.
    destruct (Z.testbit x n) eqn:Hb; [|by rewrite andb_false_r].
    destruct (Z_lt_ge_dec n 8) as [Hlt|Hge].
    - change 255 with (Z.ones 8). rewrite Z.ones_spec_low by lia. reflexivity.
    - exfalso. destruct (Z.eq_dec x 0) as [->|Hne].
      + by rewrite Z.bits_0 in Hb.
      + rewrite Z.bits_above_log2 in Hb; [discriminate|lia|].
        apply Z.log2_lt_pow2; [lia|]. 
        apply Z.lt_le_trans with (2 ^ 8); [lia|].
        apply Z.pow_le_mono_r; lia. }
  pose proof (Z.add_nocarry_lxor _ _ Hland) as Hadd.
  assert (Hxor : Z.lxor (Z.lxor x 255) x = 255).
  { rewrite (Z.lxor_comm x 255), Z.lxor_assoc, Z.lxor_nilpotent.
    apply Z.lxor_0_r. }
  lia.
Qed.

Lemma twos_complement8_spec x :
  0 <= x < 256 -> twos_complement8 x = (256 - x) mod 256.
Proof.
  intros Hx. unfold twos_complement8. rewrite lxor_255 by done.
  f_equal. lia.
Qed.

(** C9.  For every byte sequence, [lrc] is the 8-bit two's complement of
    the byte sum modulo 256: it is [256 - sum mod 256] reduced to eight bits,
    that is [- sum] modulo 256, it fits in a byte, and adding it to the byte
    sum gives a multiple of 256. *)
Theorem lrc_twos_complement_of_byte_sum (bs : bytes) :
  lrc bs = (256 - byte_sum bs mod 256) mod 256 /\
  lrc bs = (- byte_sum bs) mod 256 /\
  0 <= lrc bs < 256 /\
  (byte_sum bs + lrc bs) mod 256 = 0.
Proof.
  assert (Hm : 0 <= byte_sum bs mod 256 < 256) by (apply Z.mod_pos_bound; lia).
  assert (H1 : lrc bs = (256 - byte_sum bs mod 256) mod 256).
  { unfold lrc. by apply twos_complement8_spec. }
  assert (H2 : lrc bs = (- byte_sum bs) mod 256).
  { rewrite H1. rewrite Zminus_mod_idemp_r.
    rewrite <- (Z.mod_add (- byte_sum bs) 1 256) by lia. f_equal. lia. }
  repeat split; try done.
  - rewrite H1. apply Z.mod_pos_bound. lia.
  - rewrite H1. apply Z.mod_pos_bound. lia.
  - rewrite H2. rewrite Zplus_mod_idemp_r. rewrite Z.add_opp_diag_r. reflexivity.
Qed.

End Checksum.

Section Assembler.
Variable c : HeaderCodec.
Hypothesis Hprog : progressive c.

Lemma feed_loop_stops fuel : forall (buffer : bytes) out,
  length buffer < fuel ->
  exists r, feed_loop c fuel buffer out = Some r /\
            length (retained r) <= length buffer /\
            length (emitted r) <= length out + length buffer.
Proof.
  induction fuel as [|fuel IH]; intros buffer out Hlt; [lia|].
  cbn. destruct (try_decode c buffer) as [m n| |r] eqn:Hd.
  - pose proof (complete_consumes c Hprog _ _ _ Hd) as Hn.
    assert (Hshr : length (drop n buffer) < length buffer)
      by (rewrite length_drop; lia).
    destruct (IH (drop n buffer) (out ++ [m])) as (r & Hr & Hret & Hem); [lia|].
    exists r. split; [done|]. rewrite length_app in Hem. cbn in Hem. lia.
  - eexists. split; [done|]. cbn. lia.
  - destruct (resynchronize c buffer r) as [|n] eqn:Hs.
    + eexists. split; [done|]. cbn. lia.
    + pose proof (resync_shrinks c Hprog _ _ _ Hd Hs) as Hshr.
      destruct (IH (drop n buffer) out) as (r' & Hr & Hret & Hem); [lia|].
      exists r'. split; [done|]. lia.
Qed.

(** More fuel does not change the outcome of a loop that stopped. *)
Lemma feed_loop_fuel_mono fuel : forall fuel' (buffer : bytes) out r,
  feed_loop c fuel buffer out = Some r ->
  fuel <= fuel' ->
  feed_loop c fuel' buffer out = Some r.
Proof.
  induction fuel as [|fuel IH]; intros fuel' buffer out r H Hle; [discriminate|].
  destruct fuel' as [|fuel']; [lia|]. cbn in H |- *.
  destruct (try_decode c buffer) as [m n| |rs]; [|done|].
  - apply IH; [done|lia].
  - destruct (resynchronize c buffer rs); [done|]. apply IH; [done|lia].
Qed.

End Assembler.

(** C10.  For a codec whose [Complete] outcomes remove a non-empty prefix
    and whose resynchronization skips strictly shrink the buffer, the feed
    loop stops for every buffer and every delivery: one more iteration than
    there are buffered bytes is enough, the bytes it retains and the messages
    it emits are no more than the bytes it was given; with the buffer within
    the configured maximum frame size, that maximum plus one bounds the
    iterations. *)
Theorem feed_terminates (c : HeaderCodec) (max_frame_size : nat)
    (buffer new_bytes : bytes) :
  progressive c ->
  (forall fuel, length (buffer ++ new_bytes) < fuel ->
     exists r, feed c fuel buffer new_bytes = Some r /\
               length (retained r) <= length (buffer ++ new_bytes) /\
               length (emitted r) <= length (buffer ++ new_bytes)) /\
  (length (buffer ++ new_bytes) <= max_frame_size ->
     exists r, feed c (S max_frame_size) buffer new_bytes = Some r /\
               length (retained r) <= max_frame_size).
Proof.
  intros Hprog. split.
  - intros fuel Hfuel.
    destruct (feed_loop_stops c Hprog fuel (buffer ++ new_bytes) [] Hfuel)
      as (r & Hr & Hret & Hem).
    exists r. by repeat split.
  - intros Hmax.
    destruct (feed_loop_stops c Hprog (S max_frame_size) (buffer ++ new_bytes) [])
      as (r & Hr & Hret & _); [lia|].
    exists r. split; [done|lia].
Qed.

Lemma socket_progressive max_length : progressive (socket_codec max_length).
Proof.
  split; cbn.
  - intros buffer m n H. unfold socket_try_decode in H.
    destruct buffer as [|t1 [|t0 [|p1 [|p0 [|l1 [|l0 rest]]]]]]; try discriminate.
    destruct (negb _); [discriminate|].
    destruct (_ || _); [discriminate|].
    destruct (length rest <? N.to_nat (u16_be l1 l0)) eqn:Hlen; [discriminate|].
    apply Nat.ltb_ge in Hlen.
    destruct (take _ rest) as [|u [|f d]]; try discriminate.
    injection H as <- <-. cbn. lia.
  - discriminate.
Qed.

(** * The Socket codec of the specification *)

Lemma to_N_byte_of_N n : Byte.to_N (byte_of_N n) = (n mod 256)%N.
Proof.
  unfold byte_of_N.
  destruct (Byte.of_N (n mod 256)) as [b|] eqn:E.
  - cbn. by apply Byte.to_of_N.
  - apply Byte.of_N_None_iff in E.
    pose proof (N.mod_upper_bound n 256). lia.
Qed.

Lemma u16_be_byte_of_N n :
  (n < 65536)%N -> u16_be (byte_of_N (n / 256)) (byte_of_N n) = n.
Proof.
  intros Hn. unfold u16_be. rewrite !to_N_byte_of_N.
  rewrite (N.mod_small (n / 256)) by (apply N.Div0.div_lt_upper_bound; lia).
  pose proof (N.div_mod n 256). lia.
Qed.

(** The Socket codec of the specification does round-trip. *)
Lemma socket_round_trip max_length m t :
  transaction_id m = Some t ->
  (t < 65536)%N ->
  (N.of_nat (2 + length (data m)) <= max_length)%N ->
  (max_length < 65536)%N ->
  socket_try_decode max_length (socket_encode m)
  = Complete m (8 + length (data m)).
Proof.
  destruct m as [u f d tid]. cbn [transaction_id data]. intros -> Ht Hlen Hmax.
  unfold socket_encode, socket_try_decode.
  cbn [transaction_id data unit_id function_code default from_option id app].
  set (len := N.of_nat (2 + length d)) in *.
  rewrite !u16_be_byte_of_N by lia.
  change (u16_be x00 x00) with 0%N. cbn [N.eqb negb].
  replace (len =? 0)%N with false by (symmetry; apply N.eqb_neq; lia).
  replace (max_length <? len)%N with false by (symmetry; apply N.ltb_ge; lia).
  cbn [orb].
  assert (Hl : N.to_nat len = 2 + length d) by lia. rewrite Hl.
  replace (length (u :: f :: d) <? 2 + length d) with false
    by (symmetry; apply Nat.ltb_ge; cbn; lia).
  change (take (2 + length d) (u :: f :: d)) with (u :: f :: take (length d) d).
  rewrite firstn_all. reflexivity.
Qed.

(** * Worked instances *)

Lemma init_binds_matching_header_ex :
  params_heap (fresh_store example_cfg) !! 0 = Some (mkCommParams example_cfg None) /\
  exists self σ' m,
    ModbusMessage_init true RTU 0 false (fresh_store example_cfg) = Some (self, σ') /\
    objects (fresh_store example_cfg) !! self = None /\
    objects σ' !! self = Some m /\
    header m = HeaderRTU self /\
    message (header m) = self.
Proof.
  split; [reflexivity|].
  apply (init_binds_matching_header true RTU 0 false
           (fresh_store example_cfg) (mkCommParams example_cfg None)).
  reflexivity.
Defined.

Lemma init_overwrites_factory_ex :
  params_heap (fresh_store example_cfg) !! 0 = Some (mkCommParams example_cfg None) /\
  exists self σ1 b σ2 σ' m,
    self = length (objects (fresh_store example_cfg)) /\
    set_new_connection_class 0 (Lambda TLS self) (fresh_store example_cfg) = Some σ1 /\
    params_heap σ1 !! 0 = Some (mkCommParams example_cfg (Some (Lambda TLS self))) /\
    ModbusProtocol_init true 0 true σ1 = Some (b, σ2) /\
    ModbusMessage_init true TLS 0 true (fresh_store example_cfg) = Some (self, σ') /\
    params_heap σ' = params_heap σ2 /\
    objects σ' = objects σ2 ++ [m] /\
    trace σ' = trace σ2 /\
    objects σ' !! self = Some m /\ base m = b /\
    params_heap σ' !! 0 = Some (mkCommParams example_cfg (Some (Lambda TLS self))) /\
    params_heap σ' !! comm_params (base m)
      = Some (mkCommParams example_cfg (Some (Lambda TLS self))) /\
    (exists child σc mc,
        call true (Lambda TLS self) σ' = Some (child, σc) /\
        objects σc !! child = Some mc /\
        is_server (base mc) = false) /\
    (forall (τ : State (string * Z)) child τ',
        call true (Lambda TLS self) τ = Some (child, τ') ->
        exists mc, objects τ' !! child = Some mc /\ is_server (base mc) = false).
Proof.
  split; [reflexivity|].
  apply (init_overwrites_factory true TLS 0 true
           (fresh_store example_cfg) (mkCommParams example_cfg None)).
  reflexivity.
Defined.

Lemma header_fixed_after_construction_ex :
  ModbusMessage_init true ASCII 0 true (fresh_store example_cfg)
    = Some (0, built true ASCII true) /\
  run true example_history (built true ASCII true)
    = Some (after true example_history (built true ASCII true)) /\
  exists m1 m,
    objects (built true ASCII true) !! 0 = Some m1 /\
    objects (after true example_history (built true ASCII true)) !! 0 = Some m /\
    header m = header m1 /\
    header_type (header m) = ASCII.
Proof.
  split; [reflexivity|]. split; [reflexivity|].
  apply (header_fixed_after_construction true ASCII 0 true
           (fresh_store example_cfg) 0 (built true ASCII true) example_history);
    reflexivity.
Defined.

Lemma server_factory_spawns_independent_instance_ex :
  objects (fresh_store example_cfg) = [] /\
  params_heap (fresh_store example_cfg) !! 0 = Some (mkCommParams example_cfg None) /\
  ModbusMessage_init true SOCKET 0 true (fresh_store example_cfg)
    = Some (0, built true SOCKET true) /\
  run true example_history (built true SOCKET true)
    = Some (after true example_history (built true SOCKET true)) /\
  exists child σ' mp mc pp pc,
    new_connection true 0 (after true example_history (built true SOCKET true))
      = Some (child, σ') /\
    objects (after true example_history (built true SOCKET true)) !! child = None /\
    child <> 0 /\
    objects (after true example_history (built true SOCKET true)) !! 0 = Some mp /\
    objects σ' !! 0 = Some mp /\
    is_server (base mp) = true /\
    objects σ' !! child = Some mc /\
    header_type (header mp) = SOCKET /\
    header_type (header mc) = SOCKET /\
    message (header mc) = child /\
    params_heap σ' !! comm_params (base mp) = Some pp /\
    params_heap σ' !! comm_params (base mc) = Some pc /\
    fields pp = example_cfg /\
    fields pc = example_cfg /\
    recv_buffer (base mc) = [] /\
    (forall d a τ, data_received child d a σ' = Some τ ->
                   objects τ !! 0 = Some mp) /\
    (forall d a τ, data_received 0 d a σ' = Some τ ->
                   objects τ !! child = Some mc).
Proof.
  split; [reflexivity|]. split; [reflexivity|].
  split; [reflexivity|]. split; [reflexivity|].
  apply (server_factory_spawns_independent_instance true SOCKET 0
           (mkCommParams example_cfg None) (fresh_store example_cfg) 0
           (built true SOCKET true) example_history);
    reflexivity.
Defined.

Lemma feed_terminates_ex :
  progressive (socket_codec 260) /\
  (forall fuel,
     length (take 5 scenario_frame ++ drop 5 scenario_frame) < fuel ->
     exists r,
       feed (socket_codec 260) fuel (take 5 scenario_frame) (drop 5 scenario_frame)
         = Some r /\
       length (retained r) <= length (take 5 scenario_frame ++ drop 5 scenario_frame) /\
       length (emitted r) <= length (take 5 scenario_frame ++ drop 5 scenario_frame)) /\
  (length (take 5 scenario_frame ++ drop 5 scenario_frame) <= 260 ->
     exists r,
       feed (socket_codec 260) 261 (take 5 scenario_frame) (drop 5 scenario_frame)
         = Some r /\
       length (retained r) <= 260).
Proof.
  split; [apply socket_progressive|].
  apply (feed_terminates (socket_codec 260) 260
           (take 5 scenario_frame) (drop 5 scenario_frame)).
  apply socket_progressive.
Defined.

(** * Histories of the layer, the enum and the package *)

Section Histories.
Context {Cfg : Type} (copied : bool).
Implicit Types (σ τ : State Cfg) (cp : CommParams Cfg) (ht : CommHeaderType).

(** What one operation does to the instances and to the trace. *)
Lemma step_shape o σ σ' :
  step copied o σ = Some σ' ->
  match o with
  | Accept _ =>
      trace σ' = trace σ /\
      exists m, objects σ' = objects σ ++ [m] /\ is_server (base m) = false
  | Deliver l d a =>
      exists m, objects σ !! l = Some m /\
        params_heap σ' = params_heap σ /\
        objects σ' =
          <[l := mkModbusMessage
                   (mkModbusProtocol (comm_params (base m)) (is_server (base m))
                                     (recv_buffer (base m) ++ d))
                   (header m)]> (objects σ) /\
        trace σ' = trace σ ++ [Log_debug "callback_data called: {} addr={}"
                                 (recv_buffer (base m) ++ d) [a]]
  | Receive l d a =>
      params_heap σ' = params_heap σ /\ objects σ' = objects σ /\
      trace σ' = trace σ ++ [Log_debug "callback_data called: {} addr={}" d [a]]
  | Send l d a =>
      params_heap σ' = params_heap σ /\ objects σ' = objects σ /\
      trace σ' = trace σ ++ [Log_debug "send: {}" d []; Transport_send l d a]
  end.
Proof.
  intros Hstep. destruct o as [l0|l0 d a|l0 d a|l0 d a]; cbn in Hstep.
  - destruct (new_connection copied l0 σ) as [[c σ1]|] eqn:E; [|discriminate].
    injection Hstep as <-.
    destruct (new_connection_inv _ _ _ _ E) as (ht & p & Hinit).
    destruct (init_objects _ _ _ _ _ _ _ Hinit) as (_ & Htr & m & Hobj & _ & Hsrv & _).
    eauto.
  - destruct (data_received_inv _ _ _ _ _ Hstep) as [m0 Hm0].
    rewrite (data_received_Some _ _ _ _ _ Hm0) in Hstep. injection Hstep as <-.
    exists m0. by repeat split.
  - destruct (objects σ !! l0); [|discriminate]. injection Hstep as <-. done.
  - destruct (objects σ !! l0); [|discriminate]. injection Hstep as <-.
    cbn. by rewrite <- app_assoc.
Qed.

(** The transport sees the sends of an instance unchanged and in order.
    After any history, the byte strings handed to the transport on behalf of
    instance [l] are those handed over before, followed by the payloads of
    the [message_send] calls of [l] in the history, each as the caller gave
    it: nothing is dropped, merged, reordered or rewritten, and neither
    [callback_data], nor an accepted connection, nor a call on another
    instance adds to them. *)
Theorem sends_reach_transport_in_order ops σ σ' l :
  run copied ops σ = Some σ' ->
  handed_to_transport l (trace σ')
  = handed_to_transport l (trace σ) ++ sends_of l ops.
Proof.
  revert σ. induction ops as [|o ops IH]; intros σ Hrun; cbn in Hrun.
  - injection Hrun as <-. cbn. by rewrite app_nil_r.
  - destruct (step copied o σ) as [σ1|] eqn:E; [cbn in Hrun|discriminate].
    rewrite (IH _ Hrun). apply step_shape in E.
    unfold handed_to_transport, sends_of in *.
    destruct o as [l0|l0 d a|l0 d a|l0 d a]; cbn.
    + destruct E as [-> _]. done.
    + destruct E as (m & _ & _ & _ & ->). rewrite omap_app. cbn.
      by rewrite app_nil_r.
    + destruct E as (_ & _ & ->). rewrite omap_app. cbn. by rewrite app_nil_r.
    + destruct E as (_ & _ & ->). rewrite omap_app. cbn.
      destruct (decide (l0 = l)); cbn; by rewrite <- ?app_assoc, ?app_nil_r.
Qed.

Lemma step_length o σ σ' :
  step copied o σ = Some σ' ->
  length (objects σ') =
  length (objects σ) + match o with Accept _ => 1 | _ => 0 end.
Proof.
  intros E. apply step_shape in E.
  destruct o as [l0|l0 d a|l0 d a|l0 d a].
  - destruct E as (_ & m & -> & _). rewrite length_app. cbn. lia.
  - destruct E as (m & _ & _ & -> & _). rewrite length_insert. lia.
  - destruct E as (_ & -> & _). lia.
  - destruct E as (_ & -> & _). lia.
Qed.

(** A history adds exactly one instance per accepted connection, and every
    instance it adds is in client role, whatever the role of the instance
    that accepted. *)
Theorem accepted_instances_are_clients ops σ σ' :
  run copied ops σ = Some σ' ->
  length (objects σ') = length (objects σ) + accepts ops /\
  forall l m, length (objects σ) <= l -> objects σ' !! l = Some m ->
              is_server (base m) = false.
Proof.
  revert σ. induction ops as [|o ops IH]; intros σ Hrun; cbn in Hrun.
  - injection Hrun as <-. split; [cbn; lia|].
    intros l m Hl Hm. apply lookup_lt_Some in Hm. lia.
  - destruct (step copied o σ) as [σ1|] eqn:E; [cbn in Hrun|discriminate].
    destruct (IH _ Hrun) as (Hlen & Hnew).
    pose proof (step_length _ _ _ E) as Hl1.
    split.
    { rewrite Hlen, Hl1. unfold accepts. destruct o; cbn; lia. }
    intros l m Hl Hm.
    destruct (decide (length (objects σ1) <= l)) as [Hge|Hlt]; [by eapply Hnew|].
    destruct o as [l0|l0 d a|l0 d a|l0 d a]; try lia.
    assert (l = length (objects σ)) as -> by lia.
    apply step_shape in E as (_ & mc & Hobj & Hsrv).
    assert (Hmc : objects σ1 !! length (objects σ) = Some mc).
    { by rewrite Hobj, lookup_app_r, Nat.sub_diag. }
    destruct (run_preserves _ _ _ _ _ _ Hrun Hmc) as (m' & Hm' & _ & _ & Hs).
    congruence.
Qed.

(** [callback_data] never reports a byte as consumed, so nothing leaves
    the accumulator the transport keeps for an instance: after any history it
    holds what it held, followed by every byte delivered to that instance, in
    order. *)
Theorem accumulator_keeps_every_delivered_byte ops σ σ' l m :
  run copied ops σ = Some σ' ->
  objects σ !! l = Some m ->
  exists m', objects σ' !! l = Some m' /\
    recv_buffer (base m') = recv_buffer (base m) ++ deliveries_of l ops.
Proof.
  revert σ m. induction ops as [|o ops IH]; intros σ m Hrun Hl; cbn in Hrun.
  - injection Hrun as <-. exists m. split; [done|]. cbn. by rewrite app_nil_r.
  - destruct (step copied o σ) as [σ1|] eqn:E; [cbn in Hrun|discriminate].
    apply step_shape in E.
    destruct o as [l0|l0 d a|l0 d a|l0 d a].
    + destruct E as (_ & mc & Hobj & _).
      assert (Hl1 : objects σ1 !! l = Some m).
      { rewrite Hobj. by apply lookup_app_l_Some. }
      destruct (IH _ _ Hrun Hl1) as (m' & Hm' & Hb). eauto.
    + destruct E as (m0 & Hm0 & _ & Hobj & _).
      unfold deliveries_of. cbn. destruct (decide (l0 = l)) as [->|Hne].
      * assert (m0 = m) as -> by congruence.
        assert (Hl1 : objects σ1 !! l = Some
                  (mkModbusMessage
                     (mkModbusProtocol (comm_params (base m)) (is_server (base m))
                                       (recv_buffer (base m) ++ d))
                     (header m))).
        { rewrite Hobj. apply list_lookup_insert_eq. by eapply lookup_lt_Some. }
        destruct (IH _ _ Hrun Hl1) as (m' & Hm' & Hb).
        exists m'. split; [done|]. rewrite Hb. cbn. by rewrite <- app_assoc.
      * assert (Hl1 : objects σ1 !! l = Some m).
        { rewrite Hobj. by rewrite list_lookup_insert_ne. }
        destruct (IH _ _ Hrun Hl1) as (m' & Hm' & Hb). eauto.
    + destruct E as (_ & Hobj & _). rewrite <- Hobj in Hl.
      destruct (IH _ _ Hrun Hl) as (m' & Hm' & Hb). eauto.
    + destruct E as (_ & Hobj & _). rewrite <- Hobj in Hl.
      destruct (IH _ _ Hrun Hl) as (m' & Hm' & Hb). eauto.
Qed.

(** The factory is installed without regard to the role.  Whatever role
    the first instance was built with, every instance of its family, the
    first one and the accepted ones alike, holds a factory that can be
    invoked after any history: it yields a new client-role instance with the
    family's header type, an empty accumulator, the configuration fields the
    first instance was given, and a factory of its own that closes over the
    new instance. *)
Theorem every_member_holds_working_factory
    ht p cp srv σ0 root σ1 ops σ l m :
  objects σ0 = [] ->
  params_heap σ0 !! p = Some cp ->
  ModbusMessage_init copied ht p srv σ0 = Some (root, σ1) ->
  run copied ops σ1 = Some σ ->
  objects σ !! l = Some m ->
  exists child σ' mc pc,
    new_connection copied l σ = Some (child, σ') /\
    child = length (objects σ) /\
    objects σ' !! l = Some m /\
    objects σ' !! child = Some mc /\
    is_server (base mc) = false /\
    recv_buffer (base mc) = [] /\
    header_type (header m) = ht /\
    header_type (header mc) = ht /\
    params_heap σ' !! comm_params (base mc) = Some pc /\
    fields pc = fields cp /\
    new_connection_class pc = Some (Lambda ht child).
Proof.
  intros Hempty Hp Hinit Hrun Hl.
  pose proof (init_family copied ht (fields cp) p srv σ0 cp root σ1
                (family_empty _ _ _ Hempty) Hp eq_refl Hinit) as Hfam1.
  pose proof (run_family _ _ _ _ _ _ Hfam1 Hrun) as Hfam.
  destruct (Hfam _ _ Hl) as (Hhm & _).
  apply header_type_getitem in Hhm as [Htm _].
  destruct (new_connection_family copied _ _ _ _ _ Hfam Hl)
    as (s & ms & cps & Hms & Hcps & Hfs & Hnc).
  destruct (init_Some copied ht (comm_params (base ms)) false σ cps Hcps)
    as (h & Hh & E).
  apply header_type_getitem in Hh as [Hth _].
  pose proof (lookup_lt_Some _ _ _ Hcps) as Hlt.
  eexists _, _, _, _. split; [rewrite Hnc; exact E|]. cbn.
  split; [done|].
  split; [by apply lookup_app_l_Some|].
  split; [by rewrite lookup_app_r, Nat.sub_diag|]. cbn.
  do 4 (split; [done|]).
  destruct copied.
  - split; [rewrite lookup_app_r by (by rewrite length_insert);
             by rewrite length_insert, Nat.sub_diag|by split].
  - split; [by apply list_lookup_insert_eq|by split].
Qed.

(** The cycle between an instance and its header is never broken: after
    any history, for every instance of the family (accepted ones included),
    [header.message] is the instance itself, the header is of the family's
    type, and the instance is bound to a parameter object with the family's
    configuration whose factory closes over a live instance. *)
Theorem back_reference_closes_on_every_member
    ht p cp srv σ0 root σ1 ops σ l m :
  objects σ0 = [] ->
  params_heap σ0 !! p = Some cp ->
  ModbusMessage_init copied ht p srv σ0 = Some (root, σ1) ->
  run copied ops σ1 = Some σ ->
  objects σ !! l = Some m ->
  message (header m) = l /\
  objects σ !! message (header m) = Some m /\
  header_type (header m) = ht /\
  exists pc s ms,
    params_heap σ !! comm_params (base m) = Some pc /\
    fields pc = fields cp /\
    new_connection_class pc = Some (Lambda ht s) /\
    objects σ !! s = Some ms.
Proof.
  intros Hempty Hp Hinit Hrun Hl.
  pose proof (init_family copied ht (fields cp) p srv σ0 cp root σ1
                (family_empty _ _ _ Hempty) Hp eq_refl Hinit) as Hfam1.
  pose proof (run_family _ _ _ _ _ _ Hfam1 Hrun) as Hfam.
  destruct (Hfam _ _ Hl) as (Hhm & pc & s & Hpc & Hf & Hn & Hs).
  apply header_type_getitem in Hhm as [Htm Hback].
  destruct (lookup_lt_is_Some_2 _ _ Hs) as [ms Hms].
  rewrite Hback. eauto 12.
Qed.

(** Invoking a factory rebinds it.  The closure passes [self.comm_params]
    itself to the constructor, whose first statement overwrites
    [new_connection_class] of the object it is given: after the call, the
    parameter object of the instance the closure captured holds a closure
    over the new instance, with its other fields unchanged; the captured
    instance itself is untouched and nothing is logged or sent. *)
Theorem accepting_rebinds_factory σ l m pl ht s ms ps :
  objects σ !! l = Some m ->
  params_heap σ !! comm_params (base m) = Some pl ->
  new_connection_class pl = Some (Lambda ht s) ->
  objects σ !! s = Some ms ->
  params_heap σ !! comm_params (base ms) = Some ps ->
  exists child σ',
    new_connection copied l σ = Some (child, σ') /\
    child = length (objects σ) /\
    child <> s /\
    params_heap σ' !! comm_params (base ms)
      = Some (mkCommParams (fields ps) (Some (Lambda ht child))) /\
    objects σ' !! s = Some ms /\
    trace σ' = trace σ.
Proof.
  intros Hl Hpl Hn Hs Hps.
  destruct (init_Some copied ht (comm_params (base ms)) false σ ps Hps)
    as (h & Hh & E).
  pose proof (lookup_lt_Some _ _ _ Hps) as Hlt.
  pose proof (lookup_lt_Some _ _ _ Hs) as Hlts.
  eexists _, _. split.
  { unfold new_connection. rewrite Hl. cbn. rewrite Hpl. cbn. rewrite Hn. cbn.
    unfold call. rewrite Hs. cbn -[ModbusMessage_init]. exact E. }
  cbn. split; [done|]. split; [lia|].
  split; [|split; [by apply lookup_app_l_Some|done]].
  destruct copied.
  - rewrite lookup_app_l by (by rewrite length_insert).
    by apply list_lookup_insert_eq.
  - by apply list_lookup_insert_eq.
Qed.

End Histories.

Section Enum.
Local Open Scope Z_scope.

(** The five members of [CommHeaderType] carry the distinct values 1 to 5:
    lookup by value returns the member it came from, returns only members
    with that value, and fails exactly for the values outside 1..5. *)
Theorem CommHeaderType_value_round_trip :
  (forall t, CommHeaderType_of_value (CommHeaderType_value t) = Some t) /\
  (forall v t, CommHeaderType_of_value v = Some t -> CommHeaderType_value t = v) /\
  (forall v, CommHeaderType_of_value v = None <-> v < 1 \/ 5 < v) /\
  (forall t u, CommHeaderType_value t = CommHeaderType_value u -> t = u).
Proof.
  assert (Hrt : forall t, CommHeaderType_of_value (CommHeaderType_value t) = Some t)
    by (by intros []).
  split; [exact Hrt|].
  split.
  { intros v t. unfold CommHeaderType_of_value, CommHeaderType_members. cbn -[Z.eqb].
    repeat (match goal with
            | |- context [(?a =? v)] => destruct (Z.eqb_spec a v)
            end; [intros [= <-]; done|]).
    discriminate. }
  split.
  { intros v. unfold CommHeaderType_of_value, CommHeaderType_members. cbn -[Z.eqb].
    repeat (match goal with
            | |- context [(?a =? v)] => destruct (Z.eqb_spec a v)
            end; [split; [discriminate|lia]|]).
    split; [lia|done]. }
  intros [] [] Heq; try reflexivity; discriminate Heq.
Qed.

End Enum.


(** * Worked instances of the histories *)

Lemma sends_reach_transport_in_order_ex :
  run true example_history (built true SOCKET true)
    = Some (after true example_history (built true SOCKET true)) /\
  handed_to_transport 1 (trace (after true example_history (built true SOCKET true)))
    = handed_to_transport 1 (trace (built true SOCKET true))
      ++ sends_of 1 example_history.
Proof.
  split; [reflexivity|].
  apply (sends_reach_transport_in_order true example_history
           (built true SOCKET true)).
  reflexivity.
Defined.

Lemma accepted_instances_are_clients_ex :
  run true (Accept 0 :: Accept 1 :: example_history) (built true ASCII true)
    = Some (after true (Accept 0 :: Accept 1 :: example_history)
              (built true ASCII true)) /\
  length (objects (after true (Accept 0 :: Accept 1 :: example_history)
                     (built true ASCII true)))
    = length (objects (built true ASCII true))
      + accepts (Accept 0 :: Accept 1 :: example_history) /\
  forall l m,
    length (objects (built true ASCII true)) <= l ->
    objects (after true (Accept 0 :: Accept 1 :: example_history)
               (built true ASCII true)) !! l = Some m ->
    is_server (base m) = false.
Proof.
  split; [reflexivity|].
  apply (accepted_instances_are_clients true
           (Accept 0 :: Accept 1 :: example_history) (built true ASCII true)).
  reflexivity.
Defined.

Lemma accumulator_keeps_every_delivered_byte_ex :
  run true (example_history ++ example_history) (built true SOCKET true)
    = Some (after true (example_history ++ example_history)
              (built true SOCKET true)) /\
  objects (built true SOCKET true) !! 0
    = Some (mkModbusMessage (mkModbusProtocol 1 true []) (HeaderSocket 0)) /\
  exists m',
    objects (after true (example_history ++ example_history)
               (built true SOCKET true)) !! 0 = Some m' /\
    recv_buffer (base m') = [] ++ deliveries_of 0 (example_history ++ example_history).
Proof.
  split; [reflexivity|]. split; [reflexivity|].
  apply (accumulator_keeps_every_delivered_byte true
           (example_history ++ example_history) (built true SOCKET true)
           (after true (example_history ++ example_history) (built true SOCKET true))
           0 (mkModbusMessage (mkModbusProtocol 1 true []) (HeaderSocket 0)));
    reflexivity.
Defined.

Lemma every_member_holds_working_factory_ex :
  objects (fresh_store example_cfg) = [] /\
  params_heap (fresh_store example_cfg) !! 0 = Some (mkCommParams example_cfg None) /\
  ModbusMessage_init true RTU 0 false (fresh_store example_cfg)
    = Some (0, built true RTU false) /\
  run true example_history (built true RTU false)
    = Some (after true example_history (built true RTU false)) /\
  objects (after true example_history (built true RTU false)) !! 1
    = Some (mkModbusMessage (mkModbusProtocol 2 false []) (HeaderRTU 1)) /\
  exists child σ' mc pc,
    new_connection true 1 (after true example_history (built true RTU false))
      = Some (child, σ') /\
    child = length (objects (after true example_history (built true RTU false))) /\
    objects σ' !! 1
      = Some (mkModbusMessage (mkModbusProtocol 2 false []) (HeaderRTU 1)) /\
    objects σ' !! child = Some mc /\
    is_server (base mc) = false /\
    recv_buffer (base mc) = [] /\
    header_type (HeaderRTU 1) = RTU /\
    header_type (header mc) = RTU /\
    params_heap σ' !! comm_params (base mc) = Some pc /\
    fields pc = example_cfg /\
    new_connection_class pc = Some (Lambda RTU child).
Proof.
  split; [reflexivity|]. split; [reflexivity|].
  split; [reflexivity|]. split; [reflexivity|]. split; [reflexivity|].
  apply (every_member_holds_working_factory true RTU 0
           (mkCommParams example_cfg None) false (fresh_store example_cfg) 0
           (built true RTU false) example_history
           (after true example_history (built true RTU false)) 1
           (mkModbusMessage (mkModbusProtocol 2 false []) (HeaderRTU 1)));
    reflexivity.
Defined.

Lemma back_reference_closes_on_every_member_ex :
  objects (fresh_store example_cfg) = [] /\
  params_heap (fresh_store example_cfg) !! 0 = Some (mkCommParams example_cfg None) /\
  ModbusMessage_init false BINARY 0 true (fresh_store example_cfg)
    = Some (0, built false BINARY true) /\
  run false example_history (built false BINARY true)
    = Some (after false example_history (built false BINARY true)) /\
  objects (after false example_history (built false BINARY true)) !! 1
    = Some (mkModbusMessage (mkModbusProtocol 0 false []) (HeaderBinary 1)) /\
  message (HeaderBinary 1) = 1 /\
  objects (after false example_history (built false BINARY true))
    !! message (HeaderBinary 1)
    = Some (mkModbusMessage (mkModbusProtocol 0 false []) (HeaderBinary 1)) /\
  header_type (HeaderBinary 1) = BINARY /\
  exists pc s ms,
    params_heap (after false example_history (built false BINARY true)) !! 0
      = Some pc /\
    fields pc = example_cfg /\
    new_connection_class pc = Some (Lambda BINARY s) /\
    objects (after false example_history (built false BINARY true)) !! s = Some ms.
Proof.
  split; [reflexivity|]. split; [reflexivity|].
  split; [reflexivity|]. split; [reflexivity|]. split; [reflexivity|].
  apply (back_reference_closes_on_every_member false BINARY 0
           (mkCommParams example_cfg None) true (fresh_store example_cfg) 0
           (built false BINARY true) example_history
           (after false example_history (built false BINARY true)) 1
           (mkModbusMessage (mkModbusProtocol 0 false []) (HeaderBinary 1)));
    reflexivity.
Defined.

Lemma accepting_rebinds_factory_ex :
  objects (built true TLS true) !! 0
    = Some (mkModbusMessage (mkModbusProtocol 1 true []) (HeaderTLS 0)) /\
  params_heap (built true TLS true) !! 1
    = Some (mkCommParams example_cfg (Some (Lambda TLS 0))) /\
  exists child σ',
    new_connection true 0 (built true TLS true) = Some (child, σ') /\
    child = length (objects (built true TLS true)) /\
    child <> 0 /\
    params_heap σ' !! 1 = Some (mkCommParams example_cfg (Some (Lambda TLS child))) /\
    objects σ' !! 0
      = Some (mkModbusMessage (mkModbusProtocol 1 true []) (HeaderTLS 0)) /\
    trace σ' = trace (built true TLS true).
Proof.
  split; [reflexivity|]. split; [reflexivity|].
  apply (accepting_rebinds_factory true (built true TLS true) 0
           (mkModbusMessage (mkModbusProtocol 1 true []) (HeaderTLS 0))
           (mkCommParams example_cfg (Some (Lambda TLS 0))) TLS 0
           (mkModbusMessage (mkModbusProtocol 1 true []) (HeaderTLS 0))
           (mkCommParams example_cfg (Some (Lambda TLS 0))));
    reflexivity.
Defined.
